(** * XmlBeautify (DSSEditor/assets/js/domutils.js)

    A shallow embedding of the xml-beautify pretty-printer bundled in
    [domutils.js]: [hasXmlDef], [getEncoding], [beautify] and the recursive
    renderer [_parseInternally].

    The host DOM produced by [DOMParser] is modelled as a tree of [node]s
    carrying exactly the properties the code reads: [tagName],
    [attributes], [children], [childNodes], [textContent] and [innerHTML].
    A property that can be [undefined] in a host is an [option].
    [childNodes] is defined on every DOM node, so it is a plain list. *)

From Stdlib Require Import String Ascii List ZArith Bool Lia.
Import ListNotations.
Open Scope string_scope.
Open Scope Z_scope.

(** ** Strings as JavaScript sees them *)

Definition dq : string := String (ascii_of_nat 34) EmptyString.
Definition nl : string := String (ascii_of_nat 10) EmptyString.
Definition cr : ascii := ascii_of_nat 13.
Definition lf : ascii := ascii_of_nat 10.
Definition tab : ascii := ascii_of_nat 9.

(** [s.indexOf(pat)]: the first position, or -1. *)
Definition indexOf (s pat : string) : Z :=
  match index 0 pat s with
  | Some n => Z.of_nat n
  | None => -1
  end.

(** [s.substr(start, len)] (ECMAScript B.2.3.1). *)
Definition substr (s : string) (start len : Z) : string :=
  let size := Z.of_nat (String.length s) in
  let intStart := if start <? 0 then Z.max (size + start) 0 else Z.min start size in
  let intLength := Z.min (Z.max len 0) size in
  let intEnd := Z.min (intStart + intLength) size in
  substring (Z.to_nat intStart) (Z.to_nat (intEnd - intStart)) s.

(** [toLowerCase]. A [string] here is a JavaScript string whose code units
    are all below 256 (Latin-1). On those, [toLowerCase] maps [A]-[Z] and
    the Latin-1 capitals U+00C0-U+00DE (but U+00D7) to the code unit 32
    above, one code unit each, and keeps every other code unit. *)
Definition lower_char (c : ascii) : ascii :=
  let n := nat_of_ascii c in
  if ((65 <=? n)%nat && (n <=? 90)%nat)
     || ((192 <=? n)%nat && (n <=? 222)%nat && negb (n =? 215)%nat)
  then ascii_of_nat (n + 32) else c.

Fixpoint toLowerCase (s : string) : string :=
  match s with
  | EmptyString => EmptyString
  | String c s' => String (lower_char c) (toLowerCase s')
  end.

Example toLowerCase_latin1 :
  toLowerCase (String (ascii_of_nat 192) (String "B" (String (ascii_of_nat 215) EmptyString)))
  = String (ascii_of_nat 224) (String "b" (String (ascii_of_nat 215) EmptyString)).
Proof. reflexivity. Qed.

(** [s.replace(/ /g, '')], [s.replace(/\r?\n/g, '')], [s.replace(/\n/g, '')]
    and [s.replace(/\t/g, '')]. *)
Fixpoint remove_char (c : ascii) (s : string) : string :=
  match s with
  | EmptyString => EmptyString
  | String d s' => if Ascii.eqb c d then remove_char c s' else String d (remove_char c s')
  end.

Fixpoint remove_opt_cr_lf (s : string) : string :=
  match s with
  | EmptyString => EmptyString
  | String c s' =>
      if Ascii.eqb c lf then remove_opt_cr_lf s'
      else if Ascii.eqb c cr then
        match s' with
        | String d s'' => if Ascii.eqb d lf then remove_opt_cr_lf s''
                          else String c (remove_opt_cr_lf s')
        | EmptyString => String c EmptyString
        end
      else String c (remove_opt_cr_lf s')
  end.

Definition blankReplaced (s : string) : string :=
  remove_char tab (remove_char lf (remove_opt_cr_lf (remove_char " "%char s))).

(** The text obtained by concatenating [n] copies of [s] (the
    [for (idx = 0; idx < indentLevel; idx++)] loop). *)
Fixpoint repeat_str (s : string) (n : nat) : string :=
  match n with
  | O => EmptyString
  | S k => s ++ repeat_str s k
  end.

Definition indentFor (unit : string) (level : Z) : string :=
  repeat_str unit (Z.to_nat level).

(** ** The DOM *)

Unset Elimination Schemes.
Inductive node : Type :=
  mkNode (tagName : option string)
         (attributes : option (list (string * string)))
         (children : option (list node))
         (childNodes : list node)
         (textContent : string)
         (innerHTML : option string).
Set Elimination Schemes.

Definition tagName (n : node) := let 'mkNode t _ _ _ _ _ := n in t.
Definition attributes (n : node) := let 'mkNode _ a _ _ _ _ := n in a.
Definition children (n : node) := let 'mkNode _ _ c _ _ _ := n in c.
Definition childNodes (n : node) := let 'mkNode _ _ _ c _ _ := n in c.
Definition textContent (n : node) := let 'mkNode _ _ _ _ t _ := n in t.
Definition innerHTML (n : node) := let 'mkNode _ _ _ _ _ h := n in h.

(** [element.children], falling back to [element.childNodes]. *)
Definition chElements (n : node) : list node :=
  match children n with
  | Some l => l
  | None => childNodes n
  end.

(** ** The classification at the head of [_parseInternally] *)

Definition elementTextContent (n : node) : string :=
  if (String.length (blankReplaced (textContent n)) =? 0)%nat then ""
  else textContent n.

Definition elementHasNoChildren (n : node) : bool :=
  negb (match children n with
        | Some l => (0 <? List.length l)%nat
        | None => false
        end)
  || negb (0 <? List.length (childNodes n))%nat.

Definition elementHasValueOrChildren (n : node) : bool :=
  negb (String.length (elementTextContent n) =? 0)%nat.

Definition elementHasItsValue (n : node) : bool :=
  elementHasNoChildren n && elementHasValueOrChildren n.

Definition isEmptyElement (n : node) : bool :=
  elementHasNoChildren n && negb (elementHasValueOrChildren n).

Definition contains (s pat : string) : bool := negb (indexOf s pat =? -1).

Definition cdataOpen : string := "<![CDATA[".
Definition cdataClose : string := "]]>".

Definition valueOfElement (n : node) : string :=
  if elementHasItsValue n then
    let val := match innerHTML n with Some v => v | None => textContent n end in
    if contains val cdataOpen && contains val cdataClose
    then cdataOpen ++ elementTextContent n ++ cdataClose
    else elementTextContent n
  else "".

Fixpoint attrsText (l : list (string * string)) : string :=
  match l with
  | [] => ""
  | (name, value) :: l' => " " ++ name ++ "=" ++ dq ++ value ++ dq ++ attrsText l'
  end.

Definition attributesText (n : node) : string :=
  match attributes n with
  | Some l => attrsText l
  | None => ""
  end.

(** ** The build state *)

Record buildInfo : Type := {
  indentText : string;
  xmlText : string;
  useSelfClosingElement : bool;
  indentLevel : Z
}.

Definition emit (b : buildInfo) (s : string) : buildInfo :=
  {| indentText := indentText b; xmlText := xmlText b ++ s;
     useSelfClosingElement := useSelfClosingElement b; indentLevel := indentLevel b |}.

Definition setLevel (b : buildInfo) (l : Z) : buildInfo :=
  {| indentText := indentText b; xmlText := xmlText b;
     useSelfClosingElement := useSelfClosingElement b; indentLevel := l |}.

(** ** [_parseInternally] *)

Fixpoint _parseInternally (element : node) (b : buildInfo) {struct element} : buildInfo :=
  let useSC := useSelfClosingElement b in
  let isEmpty := isEmptyElement element in
  let hasItsValue := elementHasItsValue element in
  let indentTxt := indentFor (indentText b) (indentLevel b) in
  let b := emit b indentTxt in
  match element with
  | mkNode None _ _ _ _ _ => b
  | mkNode (Some tag) _ ch cn _ _ =>
      let b := emit b ("<" ++ tag) in
      let b := emit b (attributesText element) in
      let b := emit b (if isEmpty && useSC then " />" else ">") in
      let b := if hasItsValue then emit b (valueOfElement element)
               else if isEmpty && negb useSC then b else emit b nl in
      let b := setLevel b (indentLevel b + 1) in
      let b := fold_left (fun b c => _parseInternally c b)
                 (match ch with Some l => l | None => cn end) b in
      let b := setLevel b (indentLevel b - 1) in
      let endTag := "</" ++ tag ++ ">" in
      if isEmpty then
        (if useSC then b else emit (emit b endTag) nl)
      else
        let b := if negb (elementHasNoChildren element && elementHasValueOrChildren element)
                 then emit b indentTxt else b in
        emit (emit b endTag) nl
  end.

(** ** [hasXmlDef], [getEncoding] and [beautify] *)

Definition hasXmlDef (xmlText : string) : bool := 0 <=? indexOf xmlText "<?xml".

Definition encodingMarker : string := "encoding=" ++ dq.
Definition declEnd : string := dq ++ "?>".

Definition getEncoding (xmlText : string) : option string :=
  if negb (hasXmlDef xmlText) then None
  else
    let encodingStartPos := indexOf (toLowerCase xmlText) encodingMarker
                            + Z.of_nat (String.length encodingMarker) in
    let encodingEndPos := indexOf xmlText declEnd in
    Some (substr xmlText encodingStartPos (encodingEndPos - encodingStartPos)).

(** The [data] argument of [beautify]: [indent] is a string or [undefined],
    [useSelfClosingElement] a boolean or [undefined]. *)
Record options : Type := {
  opt_indent : option string;
  opt_useSelfClosingElement : option bool
}.

(** [if (data.indent) indent = data.indent]: only a non-empty string is truthy. *)
Definition indentOf (data : option options) : string :=
  match data with
  | Some d => match opt_indent d with
              | Some s => if (String.length s =? 0)%nat then "  " else s
              | None => "  "
              end
  | None => "  "
  end.

(** [if (data.useSelfClosingElement == true) ...] *)
Definition useSelfClosingOf (data : option options) : bool :=
  match data with
  | Some d => match opt_useSelfClosingElement d with
              | Some true => true
              | _ => false
              end
  | None => false
  end.

Definition xmlHeaderOf (xmlText : string) : option string :=
  if hasXmlDef xmlText then
    let encoding := match getEncoding xmlText with Some e => e | None => "" end in
    Some ("<?xml version=" ++ dq ++ "1.0" ++ dq ++ " encoding=" ++ dq
          ++ encoding ++ dq ++ "?>")
  else None.

Definition initialBuildInfo (data : option options) : buildInfo :=
  {| indentText := indentOf data; xmlText := "";
     useSelfClosingElement := useSelfClosingOf data; indentLevel := 0 |}.

(** [doc.children[0]], or [doc.childNodes[0]]; [None] when it is
    [undefined], where [_parseInternally] throws a TypeError. *)
Definition rootOf (doc : node) : option node :=
  match children doc with
  | Some l => nth_error l 0
  | None => nth_error (childNodes doc) 0
  end.

Section Beautify.

(** [me.parser.parseFromString(xmlText, "text/xml")]: the host's DOM parser. *)
Variable parseFromString : string -> node.

(** [input] is the [xmlText] argument of [beautify].  The text [_parseInternally] builds for the document's root element. *)
Definition renderedTree (input : string) (data : option options) : option string :=
  match rootOf (parseFromString input) with
  | Some root => Some (xmlText (_parseInternally root (initialBuildInfo data)))
  | None => None
  end.

Definition beautify (input : string) (data : option options) : option string :=
  let doc := parseFromString input in
  let buildInfo0 := initialBuildInfo data in
  match rootOf doc with
  | None => None
  | Some root =>
      let b := _parseInternally root buildInfo0 in
      let resultXml := match xmlHeaderOf input with
                       | Some h => h ++ nl
                       | None => ""
                       end in
      Some (resultXml ++ xmlText b)
  end.

End Beautify.

(** ** Trees built by a standards-conforming [DOMParser]

    A [Text] node has no [tagName], [attributes], [children] or
    [innerHTML]; an [Element]'s [children] are the elements among its
    [childNodes] and its [textContent] concatenates theirs; a [Document]
    exposes its single root element through [children] and [childNodes]. *)

Definition is_element (n : node) : bool :=
  match tagName n with Some _ => true | None => false end.

Definition domText (s : string) : node := mkNode None None None [] s None.

Definition domElement (tag : string) (attrs : list (string * string))
    (kids : list node) (inner : string) : node :=
  mkNode (Some tag) (Some attrs) (Some (filter is_element kids)) kids
         (String.concat "" (map textContent kids)) (Some inner).

Definition domDocument (root : node) : node := mkNode None None (Some [root]) [root] "" None.

(** The [children] accessor of a standard [Element]. *)
Definition std_children (n : node) : Prop :=
  children n = Some (filter is_element (childNodes n)).

Definition doc_foo : node := domDocument (domElement "foo" [] [] "").
Definition doc_name : node := domDocument (domElement "name" [] [domText "Bob"] "Bob").
Definition doc_abc : node :=
  domDocument
    (domElement "a" []
       [domElement "b" [] [domElement "c" [] [domText "x"] "x"] "<c>x</c>"]
       "<b><c>x</c></b>").

Definition opts (indent : option string) (sc : option bool) : option options :=
  Some {| opt_indent := indent; opt_useSelfClosingElement := sc |}.

(** A parser that knows the given documents. *)
Fixpoint table_parser (tbl : list (string * node)) (s : string) : node :=
  match tbl with
  | [] => domDocument (domElement "parsererror" [] [] "")
  | (k, d) :: tbl' => if String.eqb k s then d else table_parser tbl' s
  end.

Definition sample_parser : string -> node :=
  table_parser [("<foo></foo>", doc_foo); ("<name>Bob</name>", doc_name);
                ("<a><b><c>x</c></b></a>", doc_abc)].

Example beautify_foo_sc :
  beautify sample_parser "<foo></foo>" (opts None (Some true)) = Some ("<foo />" ++ nl).
Proof. vm_compute. reflexivity. Qed.

Example beautify_abc :
  beautify sample_parser "<a><b><c>x</c></b></a>" (opts (Some "  ") None)
  = Some ("<a>" ++ nl ++ "  <b>" ++ nl ++ "    <c>x</c>" ++ nl ++ "  </b>" ++ nl ++ "</a>" ++ nl).
Proof. vm_compute. reflexivity. Qed.

(** ** The renderer as a function of its indentation level

    [_parseInternally] threads one mutable [buildInfo]; [pp] is the text it
    appends, computed from the indentation unit, the self-closing flag and
    the current level. *)

Definition concatAll (l : list string) : string := fold_right String.append "" l.

Fixpoint pp (ind : string) (sc : bool) (lvl : Z) (n : node) {struct n} : string :=
  let indentTxt := indentFor ind lvl in
  match n with
  | mkNode None _ _ _ _ _ => indentTxt
  | mkNode (Some tag) _ ch cn _ _ =>
      let isEmpty := isEmptyElement n in
      let endTag := "</" ++ tag ++ ">" in
      indentTxt ++ ("<" ++ tag) ++ attributesText n
      ++ (if isEmpty && sc then " />" else ">")
      ++ (if elementHasItsValue n then valueOfElement n
          else if isEmpty && negb sc then "" else nl)
      ++ concatAll (map (pp ind sc (lvl + 1)) (match ch with Some l => l | None => cn end))
      ++ (if isEmpty then (if sc then "" else endTag ++ nl)
          else (if negb (elementHasNoChildren n && elementHasValueOrChildren n)
                then indentTxt else "") ++ endTag ++ nl)
  end.

Definition opt_Forall (P : node -> Prop) (o : option (list node)) : Prop :=
  match o with Some l => Forall P l | None => True end.

(** Induction on DOM trees, through both child accessors. *)
Definition node_rect' (P : node -> Prop)
    (H : forall t a ch cn tc ih, opt_Forall P ch -> Forall P cn -> P (mkNode t a ch cn tc ih)) :
    forall n, P n :=
  fix F n :=
    let all := fix G (l : list node) : Forall P l :=
      match l with
      | [] => Forall_nil P
      | x :: l' => Forall_cons x (F x) (G l')
      end in
    match n with
    | mkNode t a ch cn tc ih =>
        H t a ch cn tc ih
          (match ch as o return opt_Forall P o with Some l => all l | None => I end)
          (all cn)
    end.

Lemma append_assoc_str (s1 s2 s3 : string) : (s1 ++ s2) ++ s3 = s1 ++ (s2 ++ s3).
Proof. induction s1 as [|c s1 IH]; simpl; [reflexivity | now rewrite IH]. Qed.

Lemma append_empty_r (s : string) : s ++ "" = s.
Proof. induction s as [|c s IH]; simpl; [reflexivity | now rewrite IH]. Qed.

Lemma length_append_str (s1 s2 : string) :
  String.length (s1 ++ s2) = (String.length s1 + String.length s2)%nat.
Proof. induction s1 as [|c s1 IH]; simpl; [reflexivity | now rewrite IH]. Qed.

(** Equations of the build-state updates, used to rewrite a sequence of
    appends without unfolding the record at every step. *)
Lemma emit_emit (b : buildInfo) (s t : string) : emit (emit b s) t = emit b (s ++ t).
Proof. unfold emit; cbn. now rewrite append_assoc_str. Qed.

Lemma setLevel_emit (b : buildInfo) (s : string) (l : Z) :
  setLevel (emit b s) l = emit (setLevel b l) s.
Proof. reflexivity. Qed.

Lemma setLevel_setLevel (b : buildInfo) (l l' : Z) : setLevel (setLevel b l) l' = setLevel b l'.
Proof. reflexivity. Qed.

Lemma setLevel_same (b : buildInfo) : setLevel b (indentLevel b) = b.
Proof. destruct b; reflexivity. Qed.

Lemma emit_empty (b : buildInfo) : emit b "" = b.
Proof. destruct b; unfold emit; cbn. now rewrite append_empty_r. Qed.

Lemma indentLevel_emit b s : indentLevel (emit b s) = indentLevel b. Proof. reflexivity. Qed.
Lemma indentText_emit b s : indentText (emit b s) = indentText b. Proof. reflexivity. Qed.
Lemma useSC_emit b s : useSelfClosingElement (emit b s) = useSelfClosingElement b.
Proof. reflexivity. Qed.
Lemma indentLevel_setLevel b l : indentLevel (setLevel b l) = l. Proof. reflexivity. Qed.
Lemma indentText_setLevel b l : indentText (setLevel b l) = indentText b. Proof. reflexivity. Qed.
Lemma useSC_setLevel b l : useSelfClosingElement (setLevel b l) = useSelfClosingElement b.
Proof. reflexivity. Qed.

Create Rewrite HintDb build_state.
#[local] Hint Rewrite indentLevel_emit indentText_emit useSC_emit indentLevel_setLevel
  indentText_setLevel useSC_setLevel emit_emit setLevel_emit setLevel_setLevel
  Z.add_simpl_r setLevel_same : build_state.

Lemma fold_parse_emit (l : list node) :
  Forall (fun c => forall b, _parseInternally c b
                    = emit b (pp (indentText b) (useSelfClosingElement b) (indentLevel b) c)) l ->
  forall b, fold_left (fun b c => _parseInternally c b) l b
            = emit b (concatAll (map (pp (indentText b) (useSelfClosingElement b) (indentLevel b)) l)).
Proof.
  induction 1 as [|c l Hc _ IH]; intros b; simpl.
  - now rewrite emit_empty.
  - rewrite Hc, IH. autorewrite with build_state. reflexivity.
Qed.

Ltac assoc_str := repeat rewrite append_assoc_str.

(** [_parseInternally] appends [pp] at the current level and leaves every
    other field of the build state, the level included, as it found it. *)
Lemma parse_emit (n : node) (b : buildInfo) :
  _parseInternally n b
  = emit b (pp (indentText b) (useSelfClosingElement b) (indentLevel b) n).
Proof.
  revert b. induction n as [t a ch cn tc ih Hch Hcn] using node_rect'. intros b.
  destruct t as [tag|].
  - cbn [_parseInternally pp].
    set (isE := isEmptyElement (mkNode (Some tag) a ch cn tc ih)).
    set (hv := elementHasItsValue (mkNode (Some tag) a ch cn tc ih)).
    set (nc := elementHasNoChildren (mkNode (Some tag) a ch cn tc ih)).
    set (vc := elementHasValueOrChildren (mkNode (Some tag) a ch cn tc ih)).
    rewrite fold_parse_emit.
    2:{ destruct ch as [l|]; [exact Hch | exact Hcn]. }
    autorewrite with build_state.
    destruct isE, hv, (useSelfClosingElement b) eqn:Hsc, (negb (nc && vc)); cbn [andb negb];
      autorewrite with build_state; rewrite ?Hsc; cbn [andb negb];
      rewrite ?emit_empty, ?append_empty_r; f_equal; assoc_str; reflexivity.
  - reflexivity.
Qed.

Lemma parse_xmlText (n : node) (b : buildInfo) :
  xmlText (_parseInternally n b)
  = xmlText b ++ pp (indentText b) (useSelfClosingElement b) (indentLevel b) n.
Proof. now rewrite parse_emit. Qed.

Lemma hasItsValue_not_empty (n : node) :
  elementHasItsValue n = true -> isEmptyElement n = false.
Proof.
  unfold elementHasItsValue, isEmptyElement.
  destruct (elementHasNoChildren n), (elementHasValueOrChildren n); easy.
Qed.

Lemma filter_nil_length {A} (f : A -> bool) (l : list A) :
  (0 <? List.length (filter f l))%nat = false -> filter f l = [].
Proof. destruct (filter f l); simpl; easy. Qed.

(** ** Claims about [beautify] on the sample documents *)

(** C1: for the input [<foo></foo>], [useSelfClosingElement: true] gives
    exactly ["<foo />\n"] and [useSelfClosingElement: false] gives exactly
    ["<foo></foo>\n"], with no XML declaration line, whatever the indent. *)
Theorem beautify_self_closing_toggle (parse : string -> node) :
  parse "<foo></foo>" = doc_foo ->
  forall ind : option string,
    beautify parse "<foo></foo>" (opts ind (Some true)) = Some ("<foo />" ++ nl)
    /\ beautify parse "<foo></foo>" (opts ind (Some false)) = Some ("<foo></foo>" ++ nl).
Proof.
  intros Hparse ind. unfold beautify. rewrite Hparse.
  split; reflexivity.
Qed.

(** ** The XML declaration *)

Definition declarationLine (encoding : string) : string :=
  "<?xml version=" ++ dq ++ "1.0" ++ dq ++ " encoding=" ++ dq ++ encoding ++ dq ++ "?>".

(** C4: when [<?xml] occurs in the input, the output is the line
    [<?xml version="1.0" encoding="E"?>], a newline, then the rendered
    tree, where [E] is what [getEncoding] extracts (the version is always
    [1.0]); when [<?xml] does not occur, the output is the rendered tree
    alone. *)
Theorem beautify_declaration (parse : string -> node) (input : string) (data : option options) :
  (hasXmlDef input = true ->
   exists e, getEncoding input = Some e
             /\ beautify parse input data
                = option_map (fun body => declarationLine e ++ nl ++ body)
                             (renderedTree parse input data))
  /\ (hasXmlDef input = false -> beautify parse input data = renderedTree parse input data).
Proof.
  unfold beautify, renderedTree, xmlHeaderOf. split.
  - intros H. unfold getEncoding at 1 2. rewrite H. simpl.
    eexists; split; [reflexivity|].
    destruct (rootOf (parse input)); simpl; [|reflexivity].
    unfold declarationLine. now assoc_str.
  - intros H. rewrite H. destruct (rootOf (parse input)); reflexivity.
Qed.

(** ** [getEncoding] *)

Lemma substring_length_le (n m : nat) (s : string) :
  (String.length (substring n m s) <= String.length s - n)%nat.
Proof.
  revert n m. induction s as [|c s IH]; intros n m; simpl.
  - destruct n, m; simpl; lia.
  - destruct n as [|n'].
    + destruct m as [|m']; simpl; [lia|].
      specialize (IH 0%nat m'). lia.
    + specialize (IH n' m). lia.
Qed.

Lemma index_in_bounds (m : nat) (pat s : string) :
  index 0 pat s = Some m -> (m + String.length pat <= String.length s)%nat.
Proof.
  intros H. destruct pat as [|c p].
  - destruct s; simpl in H; injection H as <-; simpl; lia.
  - apply index_correct1 in H.
    pose proof (substring_length_le m (String.length (String c p)) s) as L.
    rewrite H in L. simpl in *. lia.
Qed.

Lemma substring_zero (n : nat) (s : string) : substring n 0 s = "".
Proof. revert n. induction s as [|c s IH]; intros [|n]; simpl; auto. Qed.

Lemma getEncoding_empty_gap (xmlText : string) :
  hasXmlDef xmlText = true ->
  indexOf xmlText declEnd
  <= indexOf (toLowerCase xmlText) encodingMarker + Z.of_nat (String.length encodingMarker) ->
  getEncoding xmlText = Some "".
Proof.
  intros Hdef Hle. unfold getEncoding. rewrite Hdef. simpl negb. cbv iota. f_equal.
  unfold substr; cbv zeta.
  set (st := indexOf (toLowerCase xmlText) encodingMarker + Z.of_nat (String.length encodingMarker)) in *.
  set (en := indexOf xmlText declEnd) in *.
  set (size := Z.of_nat (String.length xmlText)).
  assert (Hsz : 0 <= size) by lia.
  replace (Z.min (Z.max (en - st) 0) size) with 0 by lia.
  destruct (Z.ltb_spec st 0);
    match goal with |- substring _ (Z.to_nat ?e) _ = _ => replace e with 0 by lia end;
    apply substring_zero.
Qed.


(** The extraction the spec describes: the text between the end of the
    first case-insensitive [encoding="] and the next ["?>] after it. *)
Definition spec_getEncoding (xmlText : string) : option string :=
  if negb (hasXmlDef xmlText) then None
  else
    match index 0 encodingMarker (toLowerCase xmlText) with
    | Some i =>
        let s := (i + String.length encodingMarker)%nat in
        match index s declEnd xmlText with
        | Some j => Some (substring s (j - s) xmlText)
        | None => None
        end
    | None => None
    end.

(** A declaration without [encoding], followed by a processing instruction
    that has an [encoding="x"] pseudo-attribute. *)
Definition pi_input : string :=
  "<?xml version=" ++ dq ++ "1.0" ++ dq ++ "?><?pi encoding=" ++ dq ++ "x" ++ dq ++ "?><a/>".

(** C5 (counterexample): on [pi_input] both markers occur, the text between
    [encoding="] and the ["?>] after it is ["x"], yet [getEncoding] returns
    the empty string: it measures to the first ["?>] of the whole text,
    which precedes [encoding="]. *)
Lemma getEncoding_first_marker_cex :
  spec_getEncoding pi_input = Some "x" /\ getEncoding pi_input = Some ""
  /\ getEncoding pi_input <> spec_getEncoding pi_input.
Proof. vm_compute. split; [reflexivity | split; [reflexivity | discriminate]]. Qed.

(** C5 (amended): on a text of code units below 256, where [toLowerCase]
    keeps every position, [getEncoding] returns [null] exactly when
    [<?xml] does not occur; otherwise it returns a substring of the text,
    possibly empty. When the first case-insensitive [encodingMarker] ends
    at [i + 10] and the first [declEnd] of the whole text starts at [j]
    with [i + 10 <= j], that substring is the original text between the
    two, verbatim; when that [declEnd] is missing or starts before
    [i + 10], it is the empty string. *)
Theorem getEncoding_spec (xmlText : string) :
  (getEncoding xmlText = None <-> hasXmlDef xmlText = false)
  /\ (hasXmlDef xmlText = true -> exists k m, getEncoding xmlText = Some (substring k m xmlText))
  /\ (forall i j : nat,
        hasXmlDef xmlText = true ->
        index 0 encodingMarker (toLowerCase xmlText) = Some i ->
        index 0 declEnd xmlText = Some j ->
        (i + String.length encodingMarker <= j)%nat ->
        getEncoding xmlText
        = Some (substring (i + String.length encodingMarker)
                          (j - (i + String.length encodingMarker)) xmlText))
  /\ (forall i : nat,
        hasXmlDef xmlText = true ->
        index 0 encodingMarker (toLowerCase xmlText) = Some i ->
        (index 0 declEnd xmlText = None
         \/ exists j, index 0 declEnd xmlText = Some j /\ (j < i + String.length encodingMarker)%nat) ->
        getEncoding xmlText = Some "").
Proof.
  split; [|split; [|split]].
  - unfold getEncoding. destruct (hasXmlDef xmlText); simpl; split; congruence.
  - intros Hdef. unfold getEncoding. rewrite Hdef. simpl negb. cbv iota.
    unfold substr. eexists; eexists; reflexivity.
  - intros i j Hdef Hi Hj Hle.
    pose proof (index_in_bounds j declEnd xmlText Hj) as Hb.
    unfold getEncoding, indexOf. rewrite Hdef, Hi, Hj. simpl negb. cbv iota.
    f_equal. unfold substr.
    set (L := String.length encodingMarker) in *.
    set (size := String.length xmlText) in *.
    assert (Hst : (Z.of_nat i + Z.of_nat L <? 0) = false) by (apply Z.ltb_ge; lia).
    rewrite Hst.
    replace (Z.min (Z.of_nat i + Z.of_nat L) (Z.of_nat size)) with (Z.of_nat (i + L)) by lia.
    replace (Z.min (Z.max (Z.of_nat j - (Z.of_nat i + Z.of_nat L)) 0) (Z.of_nat size))
      with (Z.of_nat (j - (i + L))) by lia.
    replace (Z.min (Z.of_nat (i + L) + Z.of_nat (j - (i + L))) (Z.of_nat size))
      with (Z.of_nat j) by lia.
    f_equal; lia.
  - intros i Hdef Hi Hj. apply getEncoding_empty_gap; [exact Hdef|].
    unfold indexOf. rewrite Hi.
    destruct Hj as [Hj|[j [Hj Hlt]]]; rewrite Hj; lia.
Qed.

(** ** The classification of an element *)

Definition name_element : node := domElement "name" [] [domText "Bob"] "Bob".

(** C6 (counterexample): [<name>Bob</name>] has one child node (its text),
    yet [elementHasNoChildren] holds for it. *)
Lemma hasNoChildren_text_child_cex :
  List.length (childNodes name_element) = 1%nat /\ elementHasNoChildren name_element = true.
Proof. split; reflexivity. Qed.

(** C6 (amended): with the standard [children] accessor (the element
    children among [childNodes]), [elementHasNoChildren] holds exactly when
    the element has no child element: text children do not count. *)
Theorem hasNoChildren_spec (n : node) :
  std_children n ->
  (elementHasNoChildren n = true <-> filter is_element (childNodes n) = []).
Proof.
  intros Hstd. unfold elementHasNoChildren. rewrite Hstd.
  destruct (childNodes n) as [|d m] eqn:E; simpl.
  - split; reflexivity.
  - destruct (is_element d); simpl.
    + split; discriminate.
    + destruct (filter is_element m) as [|e l]; simpl; split; easy.
Qed.

(** ** Text-only nodes *)

(** What an Internet Explorer style DOM builds for [<name>Bob</name>]:
    elements have no [children] and no [innerHTML]. *)
Definition legacy_doc_name : node :=
  let txt := domText "Bob" in
  mkNode None None None [mkNode (Some "name") (Some []) None [txt] "Bob" None] "" None.

Definition level_one : buildInfo :=
  {| indentText := "  "; xmlText := ""; useSelfClosingElement := false; indentLevel := 1 |}.



(** A DOM whose nodes have no [children] accessor and no [innerHTML], as the
    fallbacks of [beautify] and [_parseInternally] to [childNodes] and
    [textContent] provide for. *)
Definition legacyElement (tag : string) (attrs : list (string * string)) (kids : list node) : node :=
  mkNode (Some tag) (Some attrs) None kids (String.concat "" (map textContent kids)) None.

Definition legacyDocument (root : node) : node := mkNode None None None [root] "" None.

Definition legacy_doc_abc : node :=
  legacyDocument (legacyElement "a" [] [legacyElement "b" [] [legacyElement "c" [] [domText "x"]]]).

(** Such a parser, on the sample inputs. *)
Definition legacy_parser : string -> node :=
  table_parser [("<name>Bob</name>", legacy_doc_name); ("<a><b><c>x</c></b></a>", legacy_doc_abc)].

(** C2 (code bug): in a DOM without [children], [<name>Bob</name>] is
    rendered with indentation between its value and its end tag, for
    either setting of [useSelfClosingElement]: the child loop falls back to
    [childNodes], visits the text node, and the text node emits the
    indentation of depth 1. *)
Theorem leaf_value_legacy_dom (sc : option bool) :
  beautify legacy_parser "<name>Bob</name>" (opts None sc) = Some ("<name>Bob  </name>" ++ nl)
  /\ beautify legacy_parser "<name>Bob</name>" (opts None sc) <> Some ("<name>Bob</name>" ++ nl).
Proof. destruct sc as [[|]|]; split; vm_compute; congruence. Qed.

(** C3 (code bug): in a DOM without [children], every element counts as
    childless, so each start tag is followed by the element's whole text,
    each text node adds the indentation of its depth, and the nested end
    tags lose theirs. *)
Theorem nested_indentation_legacy_dom (sc : option bool) :
  beautify legacy_parser "<a><b><c>x</c></b></a>" (opts (Some "  ") sc)
  = Some ("<a>x  <b>x    <c>x      </c>" ++ nl ++ "</b>" ++ nl ++ "</a>" ++ nl)
  /\ beautify legacy_parser "<a><b><c>x</c></b></a>" (opts (Some "  ") sc)
     <> Some ("<a>" ++ nl ++ "  <b>" ++ nl ++ "    <c>x</c>" ++ nl ++ "  </b>" ++ nl
              ++ "</a>" ++ nl).
Proof. destruct sc as [[|]|]; split; vm_compute; congruence. Qed.

(** ** CDATA values *)

(** C8: for an element with its own value, the value emitted right after
    the start tag is its [textContent] wrapped in one fresh
    [<![CDATA[ ... ]]>] when its inner markup ([innerHTML], or
    [textContent] where that is undefined) contains both [<![CDATA[] and
    []]>], and the plain [textContent] otherwise. *)
Theorem cdata_value (n : node) (b : buildInfo) (tag : string) :
  tagName n = Some tag -> elementHasItsValue n = true ->
  exists rest,
    xmlText (_parseInternally n b)
    = xmlText b ++ indentFor (indentText b) (indentLevel b) ++ "<" ++ tag
      ++ attributesText n ++ ">"
      ++ (let val := match innerHTML n with Some v => v | None => textContent n end in
          if contains val cdataOpen && contains val cdataClose
          then cdataOpen ++ textContent n ++ cdataClose
          else textContent n)
      ++ rest.
Proof.
  intros Htag Hv. rewrite parse_xmlText.
  pose proof (hasItsValue_not_empty n Hv) as He.
  assert (Htc : elementTextContent n = textContent n).
  { unfold elementHasItsValue, elementHasValueOrChildren, elementTextContent in *.
    destruct (String.length (blankReplaced (textContent n)) =? 0)%nat;
      [rewrite andb_false_r in Hv; discriminate | reflexivity]. }
  destruct n as [t a ch cn tc ih]. simpl in Htag. subst t.
  cbn [pp]. rewrite He, Hv. simpl andb.
  unfold valueOfElement at 1. rewrite Hv, Htc.
  eexists. simpl. assoc_str. reflexivity.
Qed.

(** ** The indentation level *)


(** ** The [indent] option *)

(** C10: an [indent] option that is the empty string is ignored: [beautify]
    behaves as with no [indent] option and indents by two spaces; only a
    non-empty string replaces the default. *)
Theorem empty_indent_falls_back (parse : string -> node) (input : string) (sc : option bool) :
  beautify parse input (opts (Some "") sc) = beautify parse input (opts None sc)
  /\ indentOf (opts (Some "") sc) = "  "
  /\ (forall s, s <> "" -> indentOf (opts (Some s) sc) = s).
Proof.
  split; [reflexivity | split; [reflexivity|]].
  intros s Hs. simpl. destruct s; [congruence | reflexivity].
Qed.

(** ** Witnesses: each theorem applied at a concrete document *)

Lemma beautify_self_closing_toggle_witness :
  beautify sample_parser "<foo></foo>" (opts None (Some true)) = Some ("<foo />" ++ nl)
  /\ beautify sample_parser "<foo></foo>" (opts None (Some false)) = Some ("<foo></foo>" ++ nl).
Proof. apply (beautify_self_closing_toggle sample_parser). vm_compute. reflexivity. Defined.

Definition decl_input : string :=
  "<?xml version=" ++ dq ++ "1.1" ++ dq ++ " encoding=" ++ dq ++ "ISO-8859-1" ++ dq
  ++ "?><a/>".

Definition decl_parser : string -> node :=
  table_parser [(decl_input, domDocument (domElement "a" [] [] ""))].

Lemma beautify_declaration_witness :
  hasXmlDef decl_input = true
  /\ exists e, getEncoding decl_input = Some e
     /\ beautify decl_parser decl_input None
        = option_map (fun body => declarationLine e ++ nl ++ body)
                     (renderedTree decl_parser decl_input None).
Proof.
  assert (H : hasXmlDef decl_input = true) by (vm_compute; reflexivity).
  split; [exact H|].
  exact (proj1 (beautify_declaration decl_parser decl_input None) H).
Defined.

Example beautify_declaration_iso :
  beautify decl_parser decl_input None
  = Some (declarationLine "ISO-8859-1" ++ nl ++ "<a></a>" ++ nl).
Proof. vm_compute. reflexivity. Qed.

Definition utf_input : string :=
  "<?xml version=" ++ dq ++ "1.0" ++ dq ++ " encoding=" ++ dq ++ "UTF-8" ++ dq ++ "?><a/>".

Lemma getEncoding_spec_witness : getEncoding utf_input = Some "UTF-8".
Proof.
  rewrite (proj1 (proj2 (proj2 (getEncoding_spec utf_input))) 20%nat 35%nat);
    vm_compute; first [reflexivity | lia].
Defined.

Lemma hasNoChildren_spec_witness :
  elementHasNoChildren name_element = true <-> filter is_element (childNodes name_element) = [].
Proof. apply (hasNoChildren_spec name_element). reflexivity. Defined.


Definition cdata_element : node :=
  domElement "q" [] [domText "a<b"] "<![CDATA[a<b]]>".

Lemma cdata_value_witness :
  exists rest,
    xmlText (_parseInternally cdata_element level_one)
    = "" ++ indentFor "  " 1 ++ "<" ++ "q" ++ "" ++ ">"
      ++ (cdataOpen ++ "a<b" ++ cdataClose) ++ rest.
Proof.
  apply (cdata_value cdata_element level_one "q"); vm_compute; reflexivity.
Defined.

Lemma empty_indent_falls_back_witness :
  indentOf (opts (Some (String tab EmptyString)) None) = String tab EmptyString.
Proof.
  apply (proj2 (proj2 (empty_indent_falls_back sample_parser "<foo></foo>" None))).
  discriminate.
Defined.

(** * Further properties of the beautifier *)

(** [getEncoding] returns the empty string when the first [declEnd] marker
    of the text does not come after the end of the first case-insensitive
    [encodingMarker] (in particular when the text has no [declEnd] at all). *)
Theorem getEncoding_empty_when_end_first (xmlText : string) :
  hasXmlDef xmlText = true ->
  indexOf xmlText declEnd
  <= indexOf (toLowerCase xmlText) encodingMarker + Z.of_nat (String.length encodingMarker) ->
  getEncoding xmlText = Some "".
Proof. apply getEncoding_empty_gap. Qed.

Lemma getEncoding_empty_when_end_first_witness : getEncoding pi_input = Some "".
Proof.
  apply getEncoding_empty_when_end_first; vm_compute; first [reflexivity | discriminate].
Defined.




(** Text made only of spaces, tabs and line feeds counts as no value. *)
Definition layout_char (c : ascii) : bool :=
  Ascii.eqb c " "%char || Ascii.eqb c tab || Ascii.eqb c lf.

Lemma blank_cons (d : ascii) (s : string) :
  layout_char d = true -> blankReplaced (String d s) = blankReplaced s.
Proof.
  unfold layout_char. intros Hd.
  apply orb_prop in Hd as [Hd|Hd]; [apply orb_prop in Hd as [Hd|Hd]|];
    apply Ascii.eqb_eq in Hd; subst d; reflexivity.
Qed.

Lemma blank_layout (s : string) :
  forallb layout_char (list_ascii_of_string s) = true -> blankReplaced s = "".
Proof.
  induction s as [|d s IH]; [reflexivity|].
  cbn [list_ascii_of_string forallb]. intros H. apply andb_prop in H as [Hd Hs].
  rewrite blank_cons by exact Hd. now apply IH.
Qed.

(** An element whose text is only spaces, tabs and line feeds has no value
    of its own: with no structural children it is an empty element. *)
Theorem layout_text_is_no_value (n : node) :
  forallb layout_char (list_ascii_of_string (textContent n)) = true ->
  elementHasValueOrChildren n = false
  /\ (elementHasNoChildren n = true -> isEmptyElement n = true).
Proof.
  intros H. unfold isEmptyElement, elementHasValueOrChildren, elementTextContent.
  rewrite blank_layout by exact H. simpl. split; [reflexivity|].
  intros ->. reflexivity.
Qed.

(** An element holding only a line break and indentation. *)
Definition layout_element : node :=
  domElement "a" [] [domText (nl ++ "  ")] (nl ++ "  ").

Lemma layout_text_is_no_value_witness :
  elementHasValueOrChildren layout_element = false
  /\ (elementHasNoChildren layout_element = true -> isEmptyElement layout_element = true).
Proof. apply layout_text_is_no_value. vm_compute. reflexivity. Defined.

Lemma std_no_children_nil (n : node) :
  std_children n -> elementHasNoChildren n = true -> children n = Some [].
Proof.
  unfold std_children, elementHasNoChildren. intros Hstd H. rewrite Hstd in *.
  destruct (filter is_element (childNodes n)) as [|x l] eqn:F; [reflexivity|].
  exfalso. try rewrite F in H.
  destruct (childNodes n) as [|c cn]; [discriminate F | discriminate H].
Qed.

(** With the standard [children] accessor, an empty element (no child
    element, no text beyond spaces, tabs and newlines) is rendered on one
    line: [<tag attrs />] in self-closing mode and [<tag attrs></tag>]
    otherwise, after the indentation of its level and followed by a
    newline. *)
Theorem empty_element_rendering (n : node) (b : buildInfo) (tag : string) :
  tagName n = Some tag -> std_children n -> isEmptyElement n = true ->
  xmlText (_parseInternally n b)
  = xmlText b ++ indentFor (indentText b) (indentLevel b) ++ "<" ++ tag ++ attributesText n
    ++ (if useSelfClosingElement b then " />" ++ nl else ">" ++ "</" ++ tag ++ ">" ++ nl).
Proof.
  intros Htag Hstd He. rewrite parse_xmlText.
  assert (Hnc : elementHasNoChildren n = true)
    by (unfold isEmptyElement in He; now apply andb_prop in He as [? _]).
  assert (Hv : elementHasItsValue n = false)
    by (unfold isEmptyElement, elementHasItsValue in *; apply andb_prop in He as [_ H];
        apply negb_true_iff in H; now rewrite H, andb_false_r).
  pose proof (std_no_children_nil n Hstd Hnc) as Hch.
  destruct n as [t a ch cn tc ih]. simpl in Htag, Hch. subst t ch.
  cbn [pp]. rewrite He, Hv.
  destruct (useSelfClosingElement b); cbn [andb negb concatAll map fold_right];
    rewrite ?append_empty_r; assoc_str; reflexivity.
Qed.

Lemma empty_element_rendering_witness :
  xmlText (_parseInternally (domElement "foo" [] [] "") level_one)
  = xmlText level_one ++ indentFor (indentText level_one) (indentLevel level_one) ++ "<" ++ "foo"
    ++ attributesText (domElement "foo" [] [] "")
    ++ (if useSelfClosingElement level_one then " />" ++ nl else ">" ++ "</" ++ "foo" ++ ">" ++ nl).
Proof.
  apply (empty_element_rendering (domElement "foo" [] [] "") level_one "foo");
    vm_compute; reflexivity.
Defined.

(** With the standard [children] accessor, an element with its own value is
    rendered on one line: indentation, start tag, value, end tag, newline,
    with nothing between the value and the end tag. *)
Theorem own_value_rendering (n : node) (b : buildInfo) (tag : string) :
  tagName n = Some tag -> std_children n -> elementHasItsValue n = true ->
  xmlText (_parseInternally n b)
  = xmlText b ++ indentFor (indentText b) (indentLevel b) ++ "<" ++ tag
    ++ attributesText n ++ ">" ++ valueOfElement n ++ "</" ++ tag ++ ">" ++ nl.
Proof.
  intros Htag Hstd Hv. rewrite parse_xmlText.
  pose proof (hasItsValue_not_empty n Hv) as He.
  destruct n as [t a ch cn tc ih]. unfold std_children in Hstd. simpl in Htag, Hstd. subst t ch.
  cbn [pp]. rewrite He, Hv.
  assert (Hnc : elementHasNoChildren (mkNode (Some tag) a (Some (filter is_element cn)) cn tc ih) = true)
    by (unfold elementHasItsValue in Hv; now apply andb_prop in Hv as [? _]).
  assert (Hvc : elementHasValueOrChildren (mkNode (Some tag) a (Some (filter is_element cn)) cn tc ih) = true)
    by (unfold elementHasItsValue in Hv; now apply andb_prop in Hv as [_ ?]).
  rewrite Hnc, Hvc.
  assert (Hnil : filter is_element cn = []).
  { unfold elementHasNoChildren in Hnc; simpl in Hnc.
    destruct (0 <? List.length (filter is_element cn))%nat eqn:E.
    - destruct cn as [|c cn']; simpl in *; [reflexivity | discriminate].
    - now apply filter_nil_length. }
  rewrite Hnil. simpl. now assoc_str.
Qed.

Lemma own_value_rendering_witness :
  xmlText (_parseInternally name_element level_one)
  = xmlText level_one ++ indentFor (indentText level_one) (indentLevel level_one) ++ "<" ++ "name"
    ++ attributesText name_element ++ ">" ++ valueOfElement name_element ++ "</" ++ "name" ++ ">" ++ nl.
Proof. apply (own_value_rendering name_element level_one "name"); vm_compute; reflexivity. Defined.

Lemma ends_nl_app (y x : string) : (exists s, x = s ++ nl) -> exists s, y ++ x = s ++ nl.
Proof. intros [s ->]. exists (y ++ s). now rewrite append_assoc_str. Qed.

Lemma pp_ends_nl (ind : string) (sc : bool) (lvl : Z) (n : node) (tag : string) :
  tagName n = Some tag -> std_children n -> exists s, pp ind sc lvl n = s ++ nl.
Proof.
  intros Htag Hstd.
  destruct (isEmptyElement n) eqn:He.
  - assert (Hnc : elementHasNoChildren n = true)
      by (unfold isEmptyElement in He; now apply andb_prop in He as [? _]).
    assert (Hv : elementHasItsValue n = false)
      by (unfold isEmptyElement, elementHasItsValue in *; apply andb_prop in He as [_ H];
          apply negb_true_iff in H; now rewrite H, andb_false_r).
    pose proof (std_no_children_nil n Hstd Hnc) as Hch.
    destruct n as [t a ch cn tc ih]. simpl in Htag, Hch. subst t ch.
    cbn [pp]. rewrite He, Hv.
    destruct sc; cbn [andb negb concatAll map fold_right]; rewrite ?append_empty_r;
      repeat apply ends_nl_app; exists ""; reflexivity.
  - destruct n as [t a ch cn tc ih]. simpl in Htag. subst t.
    cbn [pp]. rewrite He.
    repeat apply ends_nl_app; exists ""; reflexivity.
Qed.

(** When the parser's root element has the standard [children] accessor,
    the text [beautify] returns ends with a newline. *)
Theorem beautify_ends_with_newline (parse : string -> node) (input : string)
    (data : option options) (root : node) (tag : string) :
  rootOf (parse input) = Some root -> tagName root = Some tag -> std_children root ->
  exists s, beautify parse input data = Some (s ++ nl).
Proof.
  intros Hroot Htag Hstd. unfold beautify. rewrite Hroot.
  rewrite parse_xmlText.
  destruct (pp_ends_nl (indentText (initialBuildInfo data))
              (useSelfClosingElement (initialBuildInfo data))
              (indentLevel (initialBuildInfo data)) root tag Htag Hstd) as [s Hs].
  rewrite Hs. eexists. f_equal. rewrite <- !append_assoc_str. reflexivity.
Qed.

Lemma beautify_ends_with_newline_witness :
  exists s, beautify sample_parser "<name>Bob</name>" None = Some (s ++ nl).
Proof.
  apply (beautify_ends_with_newline sample_parser "<name>Bob</name>" None
           (domElement "name" [] [domText "Bob"] "Bob") "name"); vm_compute; reflexivity.
Defined.

(** * [splitAndTrim] *)

(** [String.prototype.split] with a string separator (ECMAScript 2015
    21.1.3.17, no limit).  A non-empty separator is matched at each position
    from left to right, a match closing the current piece; an empty
    separator splits into single code units, and [""] into no piece. *)
Fixpoint splitRest (R : string) (fuel : nat) (rest cur : string) : list string :=
  match fuel with
  | O => [cur ++ rest]
  | S f =>
      match rest with
      | EmptyString => [cur]
      | String c rest' =>
          if prefix R rest
          then cur :: splitRest R f (substring (String.length R) (String.length rest - String.length R) rest) ""
          else splitRest R f rest' (cur ++ String c EmptyString)
      end
  end.

Definition jsSplit (S R : string) : list string :=
  match R with
  | EmptyString => map (fun c => String c EmptyString) (list_ascii_of_string S)
  | _ => splitRest R (Datatypes.S (String.length S)) S ""
  end.

(** The white space and line terminators [String.prototype.trim] removes,
    among the code units 0 to 255: TAB, LF, VT, FF, CR, SPACE and NBSP. *)
Definition is_js_space (c : ascii) : bool :=
  let n := nat_of_ascii c in
  ((9 <=? n) && (n <=? 13))%nat || (n =? 32)%nat || (n =? 160)%nat.

Fixpoint dropWhileSpace (l : list ascii) : list ascii :=
  match l with
  | [] => []
  | c :: l' => if is_js_space c then dropWhileSpace l' else l
  end.

Definition trim (s : string) : string :=
  string_of_list_ascii
    (rev (dropWhileSpace (rev (dropWhileSpace (list_ascii_of_string s))))).

(** [splitAndTrim(str, delimiter)]. *)
Definition splitAndTrim (str delimiter : string) : list string :=
  map trim (jsSplit str delimiter).

Example splitAndTrim_sample :
  splitAndTrim " a , b ,c " "," = ["a"; "b"; "c"].
Proof. vm_compute. reflexivity. Qed.

Example jsSplit_samples :
  jsSplit "" "," = [""] /\ jsSplit "" "" = [] /\ jsSplit "ab" "" = ["a"; "b"]
  /\ jsSplit "a,,b," "," = ["a"; ""; "b"; ""] /\ jsSplit "aXYbXY" "XY" = ["a"; "b"; ""].
Proof. vm_compute. repeat split. Qed.

Lemma substring_app_split (k : nat) (s : string) :
  (k <= String.length s)%nat ->
  substring 0 k s ++ substring k (String.length s - k) s = s.
Proof.
  revert k. induction s as [|c s IH]; intros k Hk; simpl in *.
  - destruct k; [reflexivity | lia].
  - destruct k as [|k]; simpl.
    + f_equal. clear IH Hk.
      induction s as [|d s IHs]; simpl; [reflexivity | now rewrite IHs].
    + f_equal. apply IH. lia.
Qed.

Lemma prefix_split (R s : string) :
  prefix R s = true ->
  (String.length R <= String.length s)%nat
  /\ s = R ++ substring (String.length R) (String.length s - String.length R) s.
Proof.
  intros H. apply prefix_correct in H.
  assert (Hle : (String.length R <= String.length s)%nat).
  { pose proof (substring_length_le 0 (String.length R) s) as L. rewrite H in L. lia. }
  split; [exact Hle|].
  transitivity (substring 0 (String.length R) s
                ++ substring (String.length R) (String.length s - String.length R) s).
  - symmetry. now apply substring_app_split.
  - now rewrite H.
Qed.

Lemma splitRest_not_nil (R : string) (f : nat) (rest cur : string) : splitRest R f rest cur <> [].
Proof.
  revert rest cur. induction f as [|f IH]; intros rest cur; simpl; [discriminate|].
  destruct rest as [|c rest']; [discriminate|].
  destruct (prefix R (String c rest')); [discriminate | apply IH].
Qed.

Lemma concat_cons_not_nil (sep x : string) (l : list string) :
  l <> [] -> String.concat sep (x :: l) = x ++ sep ++ String.concat sep l.
Proof. destruct l; [congruence | reflexivity]. Qed.

(** Joining the pieces with a non-empty separator gives the text back. *)
Lemma splitRest_join (R : string) (f : nat) (rest cur : string) :
  R <> "" -> (String.length rest < f)%nat ->
  String.concat R (splitRest R f rest cur) = cur ++ rest.
Proof.
  intros HR. revert rest cur. induction f as [|f IH]; intros rest cur Hf; [lia|].
  simpl. destruct rest as [|c rest'].
  - simpl. now rewrite append_empty_r.
  - destruct (prefix R (String c rest')) eqn:Hp.
    + apply prefix_split in Hp as [Hle Hs].
      rewrite concat_cons_not_nil by apply splitRest_not_nil.
      rewrite IH.
      * simpl. f_equal. symmetry. exact Hs.
      * pose proof (substring_length_le (String.length R)
                      (String.length (String c rest') - String.length R) (String c rest')) as L.
        destruct R as [|r R']; [congruence|]. simpl in *. lia.
    + rewrite IH by (simpl in Hf; lia). rewrite append_assoc_str. reflexivity.
Qed.

Lemma substring_chars (k m : nat) (s : string) (c : ascii) :
  In c (list_ascii_of_string (substring k m s)) -> In c (list_ascii_of_string s).
Proof.
  revert k m. induction s as [|d s IH]; intros k m; simpl.
  - destruct k, m; simpl; tauto.
  - destruct k as [|k].
    + destruct m as [|m]; simpl; [tauto|].
      intros [->|H]; [now left | right; now apply (IH 0%nat m)].
    + intros H. right. now apply (IH k m).
Qed.

Lemma list_ascii_app (s t : string) :
  list_ascii_of_string (s ++ t) = (list_ascii_of_string s ++ list_ascii_of_string t)%list.
Proof. induction s as [|c s IH]; simpl; [reflexivity | now rewrite IH]. Qed.

(** Every piece is made of characters of the current piece and the text. *)
Lemma splitRest_chars (R : string) (f : nat) (rest cur p : string) (c : ascii) :
  In p (splitRest R f rest cur) -> In c (list_ascii_of_string p) ->
  In c (list_ascii_of_string cur) \/ In c (list_ascii_of_string rest).
Proof.
  revert rest cur. induction f as [|f IH]; intros rest cur Hp Hc; simpl in Hp.
  - destruct Hp as [<-|[]]. rewrite list_ascii_app in Hc. now apply in_app_or.
  - destruct rest as [|d rest'].
    + destruct Hp as [<-|[]]. now left.
    + destruct (prefix R (String d rest')).
      * destruct Hp as [<-|Hp]; [now left|].
        destruct (IH _ _ Hp Hc) as [[]|H]. right. eapply substring_chars. exact H.
      * destruct (IH _ _ Hp Hc) as [H|H].
        -- rewrite list_ascii_app in H. apply in_app_or in H as [H|[<-|[]]]; [now left|].
           right. now left.
        -- right. now right.
Qed.

Lemma dropWhileSpace_id (l : list ascii) :
  forallb (fun c => negb (is_js_space c)) l = true -> dropWhileSpace l = l.
Proof.
  destruct l as [|c l]; simpl; [reflexivity|].
  intros H. apply andb_prop in H as [H _]. now destruct (is_js_space c).
Qed.

Lemma trim_id (s : string) :
  forallb (fun c => negb (is_js_space c)) (list_ascii_of_string s) = true -> trim s = s.
Proof.
  intros H. unfold trim. rewrite (dropWhileSpace_id (list_ascii_of_string s) H).
  rewrite dropWhileSpace_id.
  - rewrite rev_involutive. apply string_of_list_ascii_of_string.
  - rewrite forallb_forall in *. intros c Hc. apply H. now apply in_rev.
Qed.

Definition head_not_space (l : list ascii) : Prop :=
  match l with [] => True | c :: _ => is_js_space c = false end.

Lemma dropWhileSpace_head (l : list ascii) : head_not_space (dropWhileSpace l).
Proof.
  induction l as [|c l IH]; simpl; [exact I|].
  destruct (is_js_space c) eqn:E; [exact IH | exact E].
Qed.

Lemma dropWhileSpace_suffix (l : list ascii) : exists pre, l = (pre ++ dropWhileSpace l)%list.
Proof.
  induction l as [|c l [pre IH]]; simpl; [now exists []|].
  destruct (is_js_space c); [exists (c :: pre); simpl; now f_equal | now exists []].
Qed.

(** Every piece [splitAndTrim] returns is trimmed: it neither starts nor
    ends with white space or a line terminator. *)
Theorem splitAndTrim_pieces_trimmed (str delimiter p : string) :
  In p (splitAndTrim str delimiter) ->
  head_not_space (list_ascii_of_string p) /\ head_not_space (rev (list_ascii_of_string p)).
Proof.
  unfold splitAndTrim. intros Hp. apply in_map_iff in Hp as [q [<- _]].
  unfold trim. rewrite list_ascii_of_string_of_list_ascii.
  set (m := dropWhileSpace (list_ascii_of_string q)).
  split.
  - destruct (dropWhileSpace_suffix (rev m)) as [pre Hpre].
    pose proof (dropWhileSpace_head (list_ascii_of_string q)) as Hm. fold m in Hm.
    assert (Hm' : m = (rev (dropWhileSpace (rev m)) ++ rev pre)%list).
    { rewrite <- rev_app_distr, <- Hpre. now rewrite rev_involutive. }
    destruct (rev (dropWhileSpace (rev m))) as [|c r]; [exact I|].
    rewrite Hm' in Hm. exact Hm.
  - rewrite rev_involutive. apply dropWhileSpace_head.
Qed.

Lemma splitAndTrim_pieces_trimmed_witness :
  head_not_space (list_ascii_of_string "b") /\ head_not_space (rev (list_ascii_of_string "b")).
Proof.
  apply (splitAndTrim_pieces_trimmed " a , b ,c " ","). vm_compute. right. left. reflexivity.
Defined.

(** [splitAndTrim] returns an empty array only for an empty text split by an
    empty delimiter; with a non-empty delimiter there is always a piece. *)
Theorem splitAndTrim_nil_iff (str delimiter : string) :
  splitAndTrim str delimiter = [] <-> delimiter = "" /\ str = "".
Proof.
  unfold splitAndTrim, jsSplit. split.
  - intros H. apply map_eq_nil in H.
    destruct delimiter as [|x d].
    + apply map_eq_nil in H. destruct str; [split; reflexivity | discriminate].
    + exfalso. exact (splitRest_not_nil _ _ _ _ H).
  - intros [-> ->]. reflexivity.
Qed.

(** For a text without white space and a non-empty delimiter, joining the
    pieces with the delimiter gives the text back. *)
Theorem splitAndTrim_join (str delimiter : string) :
  delimiter <> "" ->
  forallb (fun c => negb (is_js_space c)) (list_ascii_of_string str) = true ->
  String.concat delimiter (splitAndTrim str delimiter) = str.
Proof.
  intros Hd Hs. unfold splitAndTrim, jsSplit.
  destruct delimiter as [|x d]; [congruence|].
  set (R := String x d).
  rewrite map_ext_in with (g := fun p => p).
  - rewrite map_id. rewrite splitRest_join by (simpl; lia || discriminate). reflexivity.
  - intros p Hp. apply trim_id. apply forallb_forall. intros c Hc.
    destruct (splitRest_chars R _ str "" p c Hp Hc) as [[]|H].
    rewrite forallb_forall in Hs. now apply Hs.
Qed.

Lemma splitAndTrim_join_witness : String.concat "," (splitAndTrim "a,b,,c" ",") = "a,b,,c".
Proof. apply splitAndTrim_join; [discriminate | vm_compute; reflexivity]. Defined.

Lemma substring_full (s : string) : substring 0 (String.length s) s = s.
Proof. induction s as [|c s IH]; simpl; [reflexivity | now rewrite IH]. Qed.

Lemma splitRest_fuel (R : string) (f g : nat) (rest cur : string) :
  R <> "" -> (String.length rest < f)%nat -> (String.length rest < g)%nat ->
  splitRest R f rest cur = splitRest R g rest cur.
Proof.
  intros HR. revert g rest cur. induction f as [|f IH]; intros g rest cur Hf Hg; [lia|].
  destruct g as [|g]; [lia|]. simpl. destruct rest as [|x rest']; [reflexivity|].
  destruct (prefix R (String x rest')) eqn:Hp.
  - f_equal. apply IH;
      pose proof (substring_length_le (String.length R)
                    (String.length (String x rest') - String.length R) (String x rest')) as L;
      destruct R as [|r R']; try congruence; simpl in *; lia.
  - apply IH; simpl in *; lia.
Qed.

Lemma splitRest_char_nosep (c : ascii) (f : nat) (k cur : string) :
  ~ In c (list_ascii_of_string k) -> (String.length k < f)%nat ->
  splitRest (String c EmptyString) f k cur = [cur ++ k].
Proof.
  revert f cur. induction k as [|x k IH]; intros f cur Hk Hf; destruct f as [|f]; simpl in *; try lia.
  - now rewrite append_empty_r.
  - destruct (ascii_dec c x) as [->|_]; [tauto|].
    rewrite IH by (tauto || lia). now rewrite append_assoc_str.
Qed.

Lemma splitRest_char_sep (c : ascii) (f : nat) (k v cur : string) :
  ~ In c (list_ascii_of_string k) -> (String.length (k ++ String c v) < f)%nat ->
  exists f', (String.length v < f')%nat
  /\ splitRest (String c EmptyString) f (k ++ String c v) cur
     = (cur ++ k) :: splitRest (String c EmptyString) f' v "".
Proof.
  revert f cur. induction k as [|x k IH]; intros f cur Hk Hf; destruct f as [|f]; simpl in *; try lia.
  - destruct (ascii_dec c c) as [_|n]; [|congruence]. exists f. split; [lia|].
    replace (prefix "" v) with true by (destruct v; reflexivity).
    rewrite append_empty_r. simpl. rewrite Nat.sub_0_r, substring_full. reflexivity.
  - destruct (ascii_dec c x) as [->|_]; [tauto|].
    destruct (IH f (cur ++ String x EmptyString)) as [f' [Hf' E]]; [tauto | lia |].
    exists f'. split; [exact Hf'|]. rewrite E. now rewrite append_assoc_str.
Qed.

(** Splitting by one character: a text without it stays whole ... *)
Lemma jsSplit_char_nosep (c : ascii) (k : string) :
  ~ In c (list_ascii_of_string k) -> jsSplit k (String c EmptyString) = [k].
Proof. intros H. unfold jsSplit. now rewrite splitRest_char_nosep by (auto; lia). Qed.

(** ... and the first occurrence ends the first piece. *)
Lemma jsSplit_char_sep (c : ascii) (k v : string) :
  ~ In c (list_ascii_of_string k) ->
  jsSplit (k ++ String c v) (String c EmptyString) = k :: jsSplit v (String c EmptyString).
Proof.
  intros H. unfold jsSplit.
  destruct (splitRest_char_sep c (S (String.length (k ++ String c v))) k v "" H) as [f' [Hf' E]];
    [lia|].
  rewrite E. f_equal. apply splitRest_fuel; [discriminate | exact Hf' | lia].
Qed.

Lemma prefix_empty (r : string) : prefix "" r = true.
Proof. destruct r; reflexivity. Qed.

Lemma splitRest_char_app (c : ascii) (a b cur : string) (f g h : nat) :
  (String.length (a ++ String c b) < f)%nat -> (String.length a < g)%nat ->
  (String.length b < h)%nat ->
  splitRest (String c EmptyString) f (a ++ String c b) cur
  = (splitRest (String c EmptyString) g a cur
     ++ splitRest (String c EmptyString) h b "")%list.
Proof.
  revert cur f g. induction a as [|x a IH]; intros cur f g Hf Hg Hh;
    destruct f as [|f]; destruct g as [|g]; simpl in *; try lia.
  - destruct (ascii_dec c c) as [_|n]; [|congruence]. rewrite prefix_empty.
    simpl. rewrite Nat.sub_0_r, substring_full. f_equal.
    apply splitRest_fuel; [discriminate | lia | lia].
  - destruct (ascii_dec c x) as [<-|_].
    + rewrite !prefix_empty. simpl. rewrite !Nat.sub_0_r, !substring_full.
      f_equal. apply IH; lia.
    + apply IH; lia.
Qed.

(** Splitting by one character distributes over an occurrence of it. *)
Lemma jsSplit_char_app (c : ascii) (a b : string) :
  jsSplit (a ++ String c b) (String c EmptyString)
  = (jsSplit a (String c EmptyString) ++ jsSplit b (String c EmptyString))%list.
Proof. unfold jsSplit. apply splitRest_char_app; lia. Qed.

Lemma substr_drop_first (q : ascii) (s : string) :
  substr (String q s) 1 (Z.of_nat (String.length (String q s))) = s.
Proof.
  unfold substr. cbv zeta. cbn [String.length]. set (n := String.length s).
  change (1 <? 0) with false. cbv iota.
  replace (Z.min 1 (Z.of_nat (S n))) with 1 by lia.
  replace (Z.min (Z.max (Z.of_nat (S n)) 0) (Z.of_nat (S n))) with (Z.of_nat (S n)) by lia.
  replace (Z.min (1 + Z.of_nat (S n)) (Z.of_nat (S n))) with (Z.of_nat (S n)) by lia.
  replace (Z.to_nat (Z.of_nat (S n) - 1)) with n by lia.
  simpl. apply substring_full.
Qed.

(** [resolveGetParam(param)], reading the query string [location.search].
    [decodeURIComponent] is a parameter: [None] stands for the [URIError] it
    throws on a malformed escape. The result is [None] when the call throws,
    [Some None] for [null] and [Some (Some v)] for the string [v]. *)
Section ResolveGetParam.

Variable decodeURIComponent : string -> option string.

(** [location.search.substr(1).split("&")]; an absent [substr] length is the
    length of the text. *)
Definition paramItems (search : string) : list string :=
  jsSplit (substr search 1 (Z.of_nat (String.length search))) "&".

(** The [forEach] loop: [tmp[0]] is the name of the item, a missing [tmp[1]]
    is [undefined], which [decodeURIComponent] reads as the text
    [undefined]. *)
Fixpoint scanItems (param : string) (items : list string) (paramValue : option string)
  : option (option string) :=
  match items with
  | [] => Some paramValue
  | item :: items' =>
      let tmp := jsSplit item "=" in
      if String.eqb (nth 0 tmp "") param then
        match decodeURIComponent (nth 1 tmp "undefined") with
        | Some v => scanItems param items' (Some v)
        | None => None
        end
      else scanItems param items' paramValue
  end.

Definition resolveGetParam (search param : string) : option (option string) :=
  scanItems param (paramItems search) None.

Lemma scanItems_app (param : string) (l1 l2 : list string) (pv : option string) :
  scanItems param (l1 ++ l2) pv
  = match scanItems param l1 pv with
    | Some pv' => scanItems param l2 pv'
    | None => None
    end.
Proof.
  revert pv. induction l1 as [|item l1 IH]; intros pv; simpl; [reflexivity|].
  destruct (String.eqb _ param); [|apply IH].
  destruct (decodeURIComponent _); [apply IH | reflexivity].
Qed.

Lemma scanItems_pair (param k v : string) (pv : option string) :
  ~ In "="%char (list_ascii_of_string k) -> ~ In "="%char (list_ascii_of_string v) ->
  scanItems param [k ++ "=" ++ v] pv
  = if String.eqb k param then option_map Some (decodeURIComponent v) else Some pv.
Proof.
  intros Hk Hv. change (k ++ "=" ++ v) with (k ++ String "="%char v). cbn [scanItems].
  rewrite (jsSplit_char_sep "="%char k v Hk), (jsSplit_char_nosep "="%char v Hv).
  cbn [nth]. destruct (String.eqb k param); [|reflexivity].
  destruct (decodeURIComponent v); reflexivity.
Qed.

End ResolveGetParam.

(** Whether a text contains a character. *)
Definition hasChar (c : ascii) (s : string) : bool :=
  existsb (Ascii.eqb c) (list_ascii_of_string s).

(** A decoder for texts without escapes, failing on any escape. *)
Definition sample_decode (s : string) : option string :=
  if hasChar "%"%char s then None else Some s.

Lemma hasChar_false (c : ascii) (s : string) :
  hasChar c s = false -> ~ In c (list_ascii_of_string s).
Proof.
  unfold hasChar. intros H Hin.
  assert (existsb (Ascii.eqb c) (list_ascii_of_string s) = true) as E.
  { apply existsb_exists. exists c. split; [exact Hin | apply Ascii.eqb_refl]. }
  congruence.
Qed.

Lemma hasChar_app (c : ascii) (s t : string) : hasChar c (s ++ t) = hasChar c s || hasChar c t.
Proof. unfold hasChar. now rewrite list_ascii_app, existsb_app. Qed.

Lemma no_amp_pair (k v : string) :
  hasChar "&"%char k = false -> hasChar "&"%char v = false ->
  ~ In "&"%char (list_ascii_of_string (k ++ "=" ++ v)).
Proof. intros Hk Hv. apply hasChar_false. now rewrite !hasChar_app, Hk, Hv. Qed.

Lemma paramItems_first (q : ascii) (s : string) : paramItems (String q s) = jsSplit s "&".
Proof. unfold paramItems. now rewrite substr_drop_first. Qed.

(** A query string holding a single [name=value] pair gives the decoded
    value for that name, whatever its first character. *)
Theorem resolveGetParam_single_pair (decodeURIComponent : string -> option string)
    (q : ascii) (k v : string) :
  hasChar "&"%char k = false -> hasChar "="%char k = false ->
  hasChar "&"%char v = false -> hasChar "="%char v = false ->
  resolveGetParam decodeURIComponent (String q (k ++ "=" ++ v)) k
  = option_map Some (decodeURIComponent v).
Proof.
  intros Hak Hek Hav Hev. unfold resolveGetParam. rewrite paramItems_first.
  rewrite jsSplit_char_nosep by (now apply no_amp_pair).
  rewrite scanItems_pair by (now apply hasChar_false). now rewrite String.eqb_refl.
Qed.

Lemma resolveGetParam_single_pair_witness :
  resolveGetParam sample_decode "?id=7" "id" = option_map Some (sample_decode "7").
Proof. apply (resolveGetParam_single_pair sample_decode "?" "id" "7"); reflexivity. Defined.

(** A name given without [=] reads as the text [undefined]. *)
Theorem resolveGetParam_flag (decodeURIComponent : string -> option string) (q : ascii) (k : string) :
  hasChar "&"%char k = false -> hasChar "="%char k = false ->
  resolveGetParam decodeURIComponent (String q k) k
  = option_map Some (decodeURIComponent "undefined").
Proof.
  intros Hak Hek. unfold resolveGetParam. rewrite paramItems_first.
  rewrite jsSplit_char_nosep by (now apply hasChar_false). cbn [scanItems].
  rewrite jsSplit_char_nosep by (now apply hasChar_false). cbn [nth].
  rewrite String.eqb_refl. now destruct (decodeURIComponent "undefined").
Qed.

Lemma resolveGetParam_flag_witness :
  resolveGetParam sample_decode "?debug" "debug" = option_map Some (sample_decode "undefined").
Proof. apply (resolveGetParam_flag sample_decode "?" "debug"); reflexivity. Defined.

(** A value is cut at its first [=]: what follows is dropped. *)
Theorem resolveGetParam_value_cut (decodeURIComponent : string -> option string)
    (q : ascii) (k v1 v2 : string) :
  hasChar "&"%char k = false -> hasChar "="%char k = false ->
  hasChar "&"%char v1 = false -> hasChar "="%char v1 = false -> hasChar "&"%char v2 = false ->
  resolveGetParam decodeURIComponent (String q (k ++ "=" ++ v1 ++ "=" ++ v2)) k
  = option_map Some (decodeURIComponent v1).
Proof.
  intros Hak Hek Hav1 Hev1 Hav2. unfold resolveGetParam. rewrite paramItems_first.
  rewrite jsSplit_char_nosep.
  2:{ apply hasChar_false. now rewrite !hasChar_app, Hak, Hav1, Hav2. }
  cbn [scanItems]. change (k ++ "=" ++ v1 ++ "=" ++ v2) with (k ++ String "="%char (v1 ++ String "="%char v2)).
  rewrite jsSplit_char_sep by (now apply hasChar_false).
  rewrite jsSplit_char_app, jsSplit_char_nosep by (now apply hasChar_false). cbn [nth app].
  rewrite String.eqb_refl. now destruct (decodeURIComponent v1).
Qed.

Lemma resolveGetParam_value_cut_witness :
  resolveGetParam sample_decode "?q=a=b" "q" = option_map Some (sample_decode "a").
Proof. apply (resolveGetParam_value_cut sample_decode "?" "q" "a" "b"); reflexivity. Defined.

(** A later pair for the same name overrides the earlier ones, unless
    decoding an earlier one already threw. *)
Theorem resolveGetParam_last_wins (decodeURIComponent : string -> option string)
    (q : ascii) (a k v : string) :
  hasChar "&"%char k = false -> hasChar "="%char k = false ->
  hasChar "&"%char v = false -> hasChar "="%char v = false ->
  resolveGetParam decodeURIComponent (String q (a ++ "&" ++ k ++ "=" ++ v)) k
  = match resolveGetParam decodeURIComponent (String q a) k with
    | Some _ => option_map Some (decodeURIComponent v)
    | None => None
    end.
Proof.
  intros Hak Hek Hav Hev. unfold resolveGetParam. rewrite !paramItems_first.
  change (a ++ "&" ++ k ++ "=" ++ v) with (a ++ String "&"%char (k ++ "=" ++ v)).
  rewrite jsSplit_char_app, (jsSplit_char_nosep "&"%char (k ++ "=" ++ v)) by (now apply no_amp_pair).
  rewrite scanItems_app. destruct (scanItems decodeURIComponent k (jsSplit a "&") None); [|reflexivity].
  rewrite scanItems_pair by (now apply hasChar_false). now rewrite String.eqb_refl.
Qed.

Lemma resolveGetParam_last_wins_witness :
  resolveGetParam sample_decode "?id=1&id=2" "id"
  = match resolveGetParam sample_decode "?id=1" "id" with
    | Some _ => option_map Some (sample_decode "2")
    | None => None
    end.
Proof. apply (resolveGetParam_last_wins sample_decode "?" "id=1" "id" "2"); reflexivity. Defined.

(** A pair for another name leaves the result as it was. *)
Theorem resolveGetParam_other_name (decodeURIComponent : string -> option string)
    (q : ascii) (a k v param : string) :
  k <> param ->
  hasChar "&"%char k = false -> hasChar "="%char k = false ->
  hasChar "&"%char v = false -> hasChar "="%char v = false ->
  resolveGetParam decodeURIComponent (String q (a ++ "&" ++ k ++ "=" ++ v)) param
  = resolveGetParam decodeURIComponent (String q a) param.
Proof.
  intros Hne Hak Hek Hav Hev. unfold resolveGetParam. rewrite !paramItems_first.
  change (a ++ "&" ++ k ++ "=" ++ v) with (a ++ String "&"%char (k ++ "=" ++ v)).
  rewrite jsSplit_char_app, (jsSplit_char_nosep "&"%char (k ++ "=" ++ v)) by (now apply no_amp_pair).
  rewrite scanItems_app. destruct (scanItems decodeURIComponent param (jsSplit a "&") None); [|reflexivity].
  rewrite scanItems_pair by (now apply hasChar_false).
  apply String.eqb_neq in Hne. now rewrite Hne.
Qed.

Lemma resolveGetParam_other_name_witness :
  resolveGetParam sample_decode "?id=1&x=2" "id" = resolveGetParam sample_decode "?id=1" "id".
Proof.
  apply (resolveGetParam_other_name sample_decode "?" "id=1" "x" "2" "id");
    first [discriminate | reflexivity].
Defined.

(** A value [decodeURIComponent] rejects makes the call throw, whatever
    pairs follow. *)
Theorem resolveGetParam_decode_error (decodeURIComponent : string -> option string)
    (q : ascii) (k v rest : string) :
  hasChar "&"%char k = false -> hasChar "="%char k = false ->
  hasChar "&"%char v = false -> hasChar "="%char v = false ->
  decodeURIComponent v = None ->
  resolveGetParam decodeURIComponent (String q (k ++ "=" ++ v ++ "&" ++ rest)) k = None.
Proof.
  intros Hak Hek Hav Hev Hd. unfold resolveGetParam. rewrite paramItems_first.
  replace (k ++ "=" ++ v ++ "&" ++ rest) with ((k ++ "=" ++ v) ++ String "&"%char rest)
    by (now rewrite !append_assoc_str).
  rewrite jsSplit_char_app, (jsSplit_char_nosep "&"%char (k ++ "=" ++ v)) by (now apply no_amp_pair).
  rewrite scanItems_app, scanItems_pair by (now apply hasChar_false).
  now rewrite String.eqb_refl, Hd.
Qed.

Lemma resolveGetParam_decode_error_witness :
  resolveGetParam sample_decode "?id=%zz&id=2" "id" = None.
Proof. apply (resolveGetParam_decode_error sample_decode "?" "id" "%zz" "id=2"); reflexivity. Defined.

(** Without a query string the result is [null], except for the empty
    name, which gets the decoded text [undefined]. *)
Theorem resolveGetParam_no_query (decodeURIComponent : string -> option string)
    (search param : string) :
  (String.length search <= 1)%nat ->
  resolveGetParam decodeURIComponent search param
  = if String.eqb "" param then option_map Some (decodeURIComponent "undefined") else Some None.
Proof.
  intros Hl. unfold resolveGetParam.
  assert (paramItems search = [""]) as ->.
  { destruct search as [|q [|x s]]; simpl in Hl; try lia; [reflexivity|].
    rewrite paramItems_first. reflexivity. }
  simpl. destruct (String.eqb "" param); [|reflexivity].
  now destruct (decodeURIComponent "undefined").
Qed.

Lemma resolveGetParam_no_query_witness :
  resolveGetParam sample_decode "?" ""
  = if String.eqb "" "" then option_map Some (sample_decode "undefined") else Some None.
Proof. apply resolveGetParam_no_query. simpl. lia. Defined.

(** * [deleteDatasource] *)

Open Scope list_scope.

(** An XML document: elements with their attributes and children, and text. *)
Unset Elimination Schemes.
Inductive xnode : Type :=
| XElement (tag : string) (attrs : list (string * string)) (kids : list xnode)
| XText (data : string).
Set Elimination Schemes.

Definition tagOf (n : xnode) : option string :=
  match n with XElement t _ _ => Some t | XText _ => None end.

(** [Element.id]: the [id] attribute, or the empty string. *)
Definition attrId (attrs : list (string * string)) : string :=
  match find (fun p => String.eqb (fst p) "id") attrs with
  | Some (_, v) => v
  | None => ""
  end.

Definition idOf (n : xnode) : string :=
  match n with XElement _ a _ => attrId a | XText _ => "" end.

(** The node reached from the document element by a path of child indices. *)
Fixpoint nodeAt (n : xnode) (p : list nat) : option xnode :=
  match p with
  | [] => Some n
  | i :: p' =>
      match n with
      | XElement _ _ ks => match nth_error ks i with Some k => nodeAt k p' | None => None end
      | XText _ => None
      end
  end.

(** [getElementsByTagName]: the elements of a tag, with their paths, in
    document order, the document element included. *)
Fixpoint elemsByTag (name : string) (n : xnode) (path : list nat) : list (list nat * xnode) :=
  match n with
  | XText _ => []
  | XElement t a ks =>
      (if String.eqb t name then [(path, n)] else [])
      ++ (fix kids (ks : list xnode) (i : nat) : list (list nat * xnode) :=
            match ks with
            | [] => []
            | k :: ks' => elemsByTag name k (path ++ [i]) ++ kids ks' (S i)
            end) ks 0%nat
  end.

(** The part of the list that comes from the children, from the [i]-th on. *)
Fixpoint elemsByTagKids (name : string) (ks : list xnode) (path : list nat) (i : nat)
  : list (list nat * xnode) :=
  match ks with
  | [] => []
  | k :: ks' => elemsByTag name k (path ++ [i]) ++ elemsByTagKids name ks' path (S i)
  end.

Definition getElementsByTagName (name : string) (documentElement : xnode) : list (list nat * xnode) :=
  elemsByTag name documentElement [].

Definition removeAt {A : Type} (k : nat) (l : list A) : list A := firstn k l ++ skipn (S k) l.

(** [documentElement.removeChild(child)]: [None] is the [NotFoundError]
    thrown when the child is not a child of the document element. *)
Definition removeChild (documentElement : xnode) (childPath : list nat) : option xnode :=
  match documentElement, childPath with
  | XElement t a ks, [k] => Some (XElement t a (removeAt k ks))
  | _, _ => None
  end.

(** [deleteDatasource(root, datasourceId)]: the loop stops at the first
    [config] element whose [id] matches. [None] means the call throws. *)
Definition deleteDatasource (documentElement : xnode) (datasourceId : string) : option xnode :=
  match find (fun e => String.eqb (idOf (snd e)) datasourceId)
             (getElementsByTagName "config" documentElement) with
  | Some (path, _) => removeChild documentElement path
  | None => Some documentElement
  end.

Definition xnode_ind' (P : xnode -> Prop)
    (HE : forall t a ks, Forall P ks -> P (XElement t a ks))
    (HT : forall d, P (XText d)) : forall n, P n :=
  fix F n :=
    match n with
    | XElement t a ks =>
        HE t a ks ((fix G (l : list xnode) : Forall P l :=
                      match l with
                      | [] => Forall_nil P
                      | x :: l' => Forall_cons x (F x) (G l')
                      end) ks)
    | XText d => HT d
    end.

Lemma elemsByTag_element (name t : string) (a : list (string * string)) (ks : list xnode)
    (path : list nat) :
  elemsByTag name (XElement t a ks) path
  = (if String.eqb t name then [(path, XElement t a ks)] else []) ++ elemsByTagKids name ks path 0.
Proof.
  simpl. f_equal. generalize 0%nat. induction ks as [|k ks IH]; intros i; simpl; [reflexivity|].
  now rewrite IH.
Qed.

Lemma find_app {A : Type} (f : A -> bool) (l1 l2 : list A) :
  find f (l1 ++ l2) = match find f l1 with Some x => Some x | None => find f l2 end.
Proof. induction l1 as [|x l1 IH]; simpl; [reflexivity|]. destruct (f x); [reflexivity | exact IH]. Qed.

Lemma find_none_forall {A : Type} (f : A -> bool) (l : list A) :
  (forall x, In x l -> f x = false) -> find f l = None.
Proof.
  induction l as [|x l IH]; intros H; simpl; [reflexivity|].
  rewrite (H x (or_introl eq_refl)). apply IH. intros y Hy. apply H. now right.
Qed.

(** Every element listed is found at its path and carries the tag. *)
Lemma elemsByTag_sound (name : string) (n : xnode) :
  forall path p e, In (p, e) (elemsByTag name n path) ->
  exists q, p = path ++ q /\ nodeAt n q = Some e /\ tagOf e = Some name.
Proof.
  induction n as [t a ks Hks | d] using xnode_ind'; intros path p e Hin;
    [rewrite elemsByTag_element in Hin | simpl in Hin; tauto].
  apply in_app_or in Hin as [Hin|Hin].
  - destruct (String.eqb_spec t name) as [->|_]; [|destruct Hin].
    destruct Hin as [[= <- <-]|[]]. exists []. rewrite app_nil_r. now split.
  - assert (forall i, In (p, e) (elemsByTagKids name ks path i) ->
            exists j k q, nth_error ks j = Some k /\ p = path ++ (i + j)%nat :: q
                          /\ nodeAt k q = Some e /\ tagOf e = Some name) as Hk.
    { clear Hin. induction Hks as [|k ks Pk Pks IH]; intros i Hin; simpl in Hin; [destruct Hin|].
      apply in_app_or in Hin as [Hin|Hin].
      - destruct (Pk _ _ _ Hin) as [q [-> [Hq Ht]]]. exists 0%nat, k, q.
        rewrite Nat.add_0_r, <- app_assoc. now repeat split.
      - destruct (IH (S i) Hin) as [j [k' [q [Hj [-> Hq]]]]]. exists (S j), k', q.
        replace (S i + j)%nat with (i + S j)%nat by lia. now repeat split. }
    destruct (Hk 0%nat Hin) as [j [k [q [Hj [-> [Hq Ht]]]]]].
    exists (j :: q). simpl. rewrite Hj. now repeat split.
Qed.

Lemma elemsByTagKids_app (name : string) (pre post : list xnode) (c : xnode) (path : list nat) (i : nat) :
  elemsByTagKids name (pre ++ c :: post) path i
  = elemsByTagKids name pre path i
    ++ elemsByTag name c (path ++ [i + length pre]%nat)
    ++ elemsByTagKids name post path (S (i + length pre)).
Proof.
  revert i. induction pre as [|k pre IH]; intros i; simpl.
  - now rewrite Nat.add_0_r.
  - rewrite IH, <- app_assoc.
    replace (i + S (length pre))%nat with (S i + length pre)%nat by lia. reflexivity.
Qed.

Lemma find_kids_none (dsId : string) (pre : list xnode) (path : list nat) (i : nat) :
  (forall j k q e, nth_error pre j = Some k -> nodeAt k q = Some e ->
     tagOf e = Some "config" -> idOf e <> dsId) ->
  find (fun e => String.eqb (idOf (snd e)) dsId) (elemsByTagKids "config" pre path i) = None.
Proof.
  revert i. induction pre as [|k pre IH]; intros i H; simpl; [reflexivity|].
  rewrite find_app. rewrite find_none_forall.
  - apply IH. intros j. apply (H (S j)).
  - intros [p e] Hin. destruct (elemsByTag_sound _ _ _ _ _ Hin) as [q [_ [Hq Ht]]].
    apply String.eqb_neq. exact (H 0%nat k q e eq_refl Hq Ht).
Qed.

Lemma root_no_match (dsId t : string) (a : list (string * string)) (ks : list xnode)
    (path : list nat) :
  t <> "config" \/ attrId a <> dsId ->
  find (fun e => String.eqb (idOf (snd e)) dsId)
       (if String.eqb t "config" then [(path, XElement t a ks)] else []) = None.
Proof.
  intros H. destruct (String.eqb_spec t "config") as [->|Hn]; [|reflexivity].
  simpl. destruct H as [H|H]; [congruence|]. apply String.eqb_neq in H. now rewrite H.
Qed.

Lemma elemsByTagKids_in (name : string) (ks : list xnode) (path : list nat) (j i : nat)
    (k : xnode) (x : list nat * xnode) :
  nth_error ks i = Some k -> In x (elemsByTag name k (path ++ [j + i]%nat)) ->
  In x (elemsByTagKids name ks path j).
Proof.
  revert i j. induction ks as [|k' ks IH]; intros [|i] j Hk Hin; simpl in *; try discriminate.
  - injection Hk as ->. rewrite Nat.add_0_r in Hin. apply in_or_app. now left.
  - apply in_or_app. right. apply (IH i (S j)); [exact Hk|].
    now replace (S j + i)%nat with (j + S i)%nat by lia.
Qed.

(** Every element of the tag is listed, at its path. *)
Lemma elemsByTag_complete (name : string) (q : list nat) :
  forall n path e, nodeAt n q = Some e -> tagOf e = Some name ->
  In (path ++ q, e) (elemsByTag name n path).
Proof.
  induction q as [|i q IH]; intros n path e Hq Ht.
  - simpl in Hq. injection Hq as <-. destruct n as [t a ks|d]; [|discriminate].
    injection Ht as ->. rewrite elemsByTag_element, String.eqb_refl, app_nil_r. now left.
  - destruct n as [t a ks|d]; [|discriminate]. simpl in Hq.
    destruct (nth_error ks i) as [k|] eqn:Hk; [|discriminate].
    rewrite elemsByTag_element. apply in_or_app. right.
    specialize (IH k (path ++ [i]) e Hq Ht). rewrite <- app_assoc in IH. simpl in IH.
    exact (elemsByTagKids_in name ks path 0 i k _ Hk IH).
Qed.

Lemma removeAt_middle {A : Type} (pre post : list A) (c : A) :
  removeAt (length pre) (pre ++ c :: post) = pre ++ post.
Proof.
  unfold removeAt. induction pre as [|x pre IH]; simpl; [reflexivity|]. now f_equal.
Qed.

(** When no [config] element carries the id, the document is left as it is. *)
Theorem deleteDatasource_absent (documentElement : xnode) (datasourceId : string) :
  (forall p e, nodeAt documentElement p = Some e -> tagOf e = Some "config" ->
     idOf e <> datasourceId) ->
  deleteDatasource documentElement datasourceId = Some documentElement.
Proof.
  intros H. unfold deleteDatasource, getElementsByTagName.
  rewrite find_none_forall; [reflexivity|]. intros [p e] Hin.
  destruct (elemsByTag_sound _ _ _ _ _ Hin) as [q [_ [Hq Ht]]].
  apply String.eqb_neq. exact (H q e Hq Ht).
Qed.

(** A data service with two data sources and a query. *)
Definition ds_doc : xnode :=
  XElement "data" [("name", "d")]
    [XElement "config" [("id", "a")] []; XElement "config" [("id", "b")] [XText "x"];
     XElement "query" [("id", "q")] []].

(** A data source two levels inside a group, after a text node. *)
Definition nested_doc : xnode :=
  XElement "data" []
    [XElement "group" [] [XText "t"; XElement "sub" [] [XElement "config" [("id", "a")] []]]].

Lemma deleteDatasource_absent_witness : deleteDatasource ds_doc "zz" = Some ds_doc.
Proof.
  apply deleteDatasource_absent. intros p e Hp Ht Hid.
  pose proof (elemsByTag_complete "config" p ds_doc [] e Hp Ht) as Hin. vm_compute in Hin.
  destruct Hin as [E|[E|[]]]; injection E as _ <-; vm_compute in Hid; discriminate Hid.
Defined.

(** When the first [config] element with the id is a child of the document
    element, exactly that child is removed. *)
Theorem deleteDatasource_direct_child (t : string) (a ca : list (string * string))
    (pre post cks : list xnode) (datasourceId : string) :
  t <> "config" \/ attrId a <> datasourceId ->
  (forall j k q e, nth_error pre j = Some k -> nodeAt k q = Some e ->
     tagOf e = Some "config" -> idOf e <> datasourceId) ->
  attrId ca = datasourceId ->
  deleteDatasource (XElement t a (pre ++ XElement "config" ca cks :: post)) datasourceId
  = Some (XElement t a (pre ++ post)).
Proof.
  intros Hroot Hpre Hid. unfold deleteDatasource, getElementsByTagName.
  rewrite elemsByTag_element, find_app, root_no_match by exact Hroot.
  rewrite elemsByTagKids_app, find_app, find_kids_none by exact Hpre.
  rewrite elemsByTag_element, String.eqb_refl. cbn [app find snd idOf].
  rewrite Hid, String.eqb_refl. simpl. now rewrite removeAt_middle.
Qed.

Lemma deleteDatasource_direct_child_witness :
  deleteDatasource ds_doc "b"
  = Some (XElement "data" [("name", "d")]
            [XElement "config" [("id", "a")] []; XElement "query" [("id", "q")] []]).
Proof.
  apply (deleteDatasource_direct_child "data" [("name", "d")] [("id", "b")]
           [XElement "config" [("id", "a")] []] [XElement "query" [("id", "q")] []] [XText "x"] "b").
  - left. discriminate.
  - intros [|[|j]] k q e Hj Hq Ht Hid; try discriminate. injection Hj as <-.
    pose proof (elemsByTag_complete "config" q _ [] e Hq Ht) as Hin. vm_compute in Hin.
    destruct Hin as [E|[]]. injection E as _ <-. vm_compute in Hid. discriminate Hid.
  - reflexivity.
Defined.

(** A document element that is itself the matching [config] element cannot
    be removed from itself: the call throws. *)
Theorem deleteDatasource_root_config (a : list (string * string)) (ks : list xnode)
    (datasourceId : string) :
  attrId a = datasourceId ->
  deleteDatasource (XElement "config" a ks) datasourceId = None.
Proof.
  intros Hid. unfold deleteDatasource, getElementsByTagName.
  rewrite elemsByTag_element, String.eqb_refl. cbn [app find snd idOf].
  rewrite Hid, String.eqb_refl. reflexivity.
Qed.

Lemma deleteDatasource_root_config_witness :
  deleteDatasource (XElement "config" [("id", "a")] []) "a" = None.
Proof. apply deleteDatasource_root_config. reflexivity. Defined.

(** When the first matching [config] element lies anywhere inside a child of
    the document element, at any depth and position, it is not a child of
    the document element and the call throws. *)
Theorem deleteDatasource_nested_config (t w : string) (a wa : list (string * string))
    (pre post wks : list xnode) (datasourceId : string) (q : list nat) (e : xnode) :
  t <> "config" \/ attrId a <> datasourceId ->
  (forall j k q e, nth_error pre j = Some k -> nodeAt k q = Some e ->
     tagOf e = Some "config" -> idOf e <> datasourceId) ->
  w <> "config" \/ attrId wa <> datasourceId ->
  nodeAt (XElement w wa wks) q = Some e -> tagOf e = Some "config" -> idOf e = datasourceId ->
  deleteDatasource (XElement t a (pre ++ XElement w wa wks :: post)) datasourceId = None.
Proof.
  intros Hroot Hpre Hw Hq Ht Hid. unfold deleteDatasource, getElementsByTagName.
  rewrite elemsByTag_element, find_app, root_no_match by exact Hroot.
  rewrite elemsByTagKids_app, find_app, find_kids_none by exact Hpre.
  rewrite find_app.
  set (f := fun e0 : list nat * xnode => String.eqb (idOf (snd e0)) datasourceId).
  pose proof (elemsByTag_complete "config" q (XElement w wa wks) ([] ++ [0 + length pre]%nat) e Hq Ht)
    as Hin.
  destruct (find f (elemsByTag "config" (XElement w wa wks) ([] ++ [0 + length pre]%nat)))
    as [[p e']|] eqn:F.
  - apply find_some in F as [Hin' Hf]. unfold f in Hf. simpl in Hf. apply String.eqb_eq in Hf.
    destruct (elemsByTag_sound _ _ _ _ _ Hin') as [q' [-> [Hq' Ht']]].
    destruct q' as [|i q'].
    + simpl in Hq'. injection Hq' as <-. simpl in Ht', Hf. injection Ht' as ->.
      destruct Hw as [Hw|Hw]; congruence.
    + reflexivity.
  - exfalso. apply (find_none _ _ F) in Hin. unfold f in Hin. simpl in Hin.
    rewrite Hid, String.eqb_refl in Hin. discriminate.
Qed.

Lemma deleteDatasource_nested_config_witness : deleteDatasource nested_doc "a" = None.
Proof.
  apply (deleteDatasource_nested_config "data" "group" [] [] [] []
           [XText "t"; XElement "sub" [] [XElement "config" [("id", "a")] []]] "a" [1; 0]%nat
           (XElement "config" [("id", "a")] [])).
  - left. discriminate.
  - intros [|j] k q e Hj; discriminate.
  - left. discriminate.
  - reflexivity.
  - reflexivity.
  - reflexivity.
Defined.

(** Whatever it returns, [deleteDatasource] either leaves the document as it
    is or removes one child of the document element: a [config] element with
    the id. *)
Theorem deleteDatasource_result (documentElement result : xnode) (datasourceId : string) :
  deleteDatasource documentElement datasourceId = Some result ->
  result = documentElement
  \/ exists t a ks k e, documentElement = XElement t a ks /\ nth_error ks k = Some e
     /\ tagOf e = Some "config" /\ idOf e = datasourceId
     /\ result = XElement t a (removeAt k ks).
Proof.
  unfold deleteDatasource. destruct (find _ _) as [[p e]|] eqn:F.
  2:{ intros [= <-]. now left. }
  apply find_some in F as [Hin Hid]. apply String.eqb_eq in Hid. simpl in Hid.
  destruct (elemsByTag_sound _ _ _ _ _ Hin) as [q [Hp [Hq Ht]]]. simpl in Hp. subst q.
  destruct documentElement as [t a ks|d]; [|discriminate].
  destruct p as [|k [|x p]]; try discriminate. simpl. intros [= <-]. right.
  simpl in Hq. destruct (nth_error ks k) eqn:Hk; [|discriminate]. injection Hq as ->.
  exists t, a, ks, k, e. now repeat split.
Qed.

Lemma deleteDatasource_result_witness :
  let result := XElement "data" [("name", "d")]
                  [XElement "config" [("id", "a")] []; XElement "query" [("id", "q")] []] in
  result = ds_doc
  \/ exists t a ks k e, ds_doc = XElement t a ks /\ nth_error ks k = Some e
     /\ tagOf e = Some "config" /\ idOf e = "b"
     /\ result = XElement t a (removeAt k ks).
Proof. intros result. apply (deleteDatasource_result ds_doc result "b"). vm_compute. reflexivity. Defined.

(** The call throws only when a matching [config] element is not a child of
    the document element. *)
Theorem deleteDatasource_throws (documentElement : xnode) (datasourceId : string) :
  deleteDatasource documentElement datasourceId = None ->
  exists p e, nodeAt documentElement p = Some e /\ tagOf e = Some "config"
    /\ idOf e = datasourceId /\ length p <> 1%nat.
Proof.
  unfold deleteDatasource. destruct (find _ _) as [[p e]|] eqn:F; [|discriminate].
  apply find_some in F as [Hin Hid]. apply String.eqb_eq in Hid. simpl in Hid.
  destruct (elemsByTag_sound _ _ _ _ _ Hin) as [q [Hp [Hq Ht]]]. simpl in Hp. subst q.
  intros Hnone. exists p, e. repeat split; try assumption.
  destruct documentElement as [t a ks|d]; destruct p as [|k [|x p]]; simpl; try discriminate.
Qed.

Lemma deleteDatasource_throws_witness :
  exists p e, nodeAt nested_doc p = Some e /\ tagOf e = Some "config"
    /\ idOf e = "a" /\ length p <> 1%nat.
Proof. apply (deleteDatasource_throws nested_doc "a"). vm_compute. reflexivity. Defined.

Open Scope string_scope.
